(** * The I2C character-LCD driver and the button/LED reflector of [reciever.py]

    A shallow embedding of the Python script: every procedure of the script is
    a computation in a small state-and-exception monad that records, in order,
    the interactions with the outside world (bus writes, sleeps, GPIO reads and
    writes).  Python integers are [Z], Python strings are lists of Unicode code
    points, durations are rationals (the decimal literal of the source read as
    the fraction it denotes). *)

From Stdlib Require Import String Ascii ZArith QArith List Bool Lia.
Import ListNotations.
Local Open Scope Z_scope.

(** ** The outside world *)

(** A GPIO level, [GPIO.LOW] or [GPIO.HIGH]. *)
Inductive Level : Type := LOW | HIGH.

Definition Level_eqb (a b : Level) : bool :=
  match a, b with
  | LOW, LOW | HIGH, HIGH => true
  | _, _ => false
  end.

(** What the script does to its collaborators, as the collaborators see it. *)
Inductive Event : Type :=
| BusWrite (addr data : Z)          (* bus.write_byte(addr, data) *)
| Sleep (secs : Q)                  (* time.sleep(secs) *)
| GpioInput (pin : Z) (v : Level)   (* GPIO.input(pin), which returned v *)
| GpioOutput (pin : Z) (v : Level). (* GPIO.output(pin, v) *)

(** The Python exceptions the operations used by the script can raise. *)
Inductive Exn : Type :=
  IndexError | ZeroDivisionError | ValueError | OverflowError.

Inductive Res (A : Type) : Type :=
| Ok (a : A)
| Raise (e : Exn).
Arguments Ok {A} a.
Arguments Raise {A} e.

(** The mutable state the script reads: the module global [LCD_BACKLIGHT] and
    the level of every GPIO pin. *)
Record World : Type := mkWorld {
  LCD_BACKLIGHT : Z;
  pin_level : Z -> Level
}.

Record Outcome (A : Type) : Type := mkOutcome {
  result : Res A;
  final : World;
  events : list Event
}.
Arguments mkOutcome {A} result final events.
Arguments result {A} o.
Arguments final {A} o.
Arguments events {A} o.

(** ** The monad *)

Definition M (A : Type) : Type := World -> Outcome A.

Definition ret {A} (a : A) : M A :=
  fun w => mkOutcome (Ok a) w [].

Definition raise {A} (e : Exn) : M A :=
  fun w => mkOutcome (Raise e) w [].

Definition emit (e : Event) : M unit :=
  fun w => mkOutcome (Ok tt) w [e].

(** [after evs o]: the outcome [o], reached after [evs] had already happened. *)
Definition after {A} (evs : list Event) (o : Outcome A) : Outcome A :=
  mkOutcome (result o) (final o) (evs ++ events o).

Definition bind {A B} (m : M A) (k : A -> M B) : M B :=
  fun w =>
    let o := m w in
    match result o with
    | Ok a => after (events o) (k a (final o))
    | Raise e => mkOutcome (Raise e) (final o) (events o)
    end.

Declare Scope py_scope.
Delimit Scope py_scope with py.
Notation "x <- m ;; k" := (bind m (fun x => k))
  (at level 100, m at next level, right associativity) : py_scope.
Notation "m ;; k" := (bind m (fun _ => k))
  (at level 100, right associativity) : py_scope.
Local Open Scope py_scope.

(** [for x in l: body(x)] *)
Fixpoint for_each {A} (l : list A) (body : A -> M unit) : M unit :=
  match l with
  | [] => ret tt
  | x :: rest => body x ;; for_each rest body
  end.

(** [for x in l: acc = body(acc, x)], for a loop that rebinds one local. *)
Fixpoint for_fold {A S} (l : list A) (acc : S) (body : S -> A -> M S) : M S :=
  match l with
  | [] => ret acc
  | x :: rest => acc' <- body acc x ;; for_fold rest acc' body
  end.

(** [range(n)]: empty when [n <= 0]. *)
Definition range (n : Z) : list Z :=
  map Z.of_nat (seq 0 (Z.to_nat n)).

(** ** Python integers and strings *)

(** [a % b] on integers: the result has the sign of [b]; [b = 0] raises. *)
Definition py_mod (a b : Z) : M Z :=
  if b =? 0 then raise ZeroDivisionError else ret (a mod b).

(** A character is its Unicode code point. *)
Definition char : Type := N.
Definition str : Type := list char.

Definition ord (c : char) : Z := Z.of_N c.
Definition len (s : str) : Z := Z.of_nat (List.length s).

(** The one-character string [" "]. *)
Definition space : char := 32%N.

(** A literal of the source, as a [str]. *)
Definition lit (s : string) : str :=
  map N_of_ascii (list_ascii_of_string s).

(** [s.ljust(width, fill)]: [s] itself when it is already [width] long. *)
Definition ljust (s : str) (width : Z) (fill : char) : str :=
  s ++ repeat fill (Z.to_nat (width - len s)).

(** [s * n] *)
Definition str_mul (s : str) (n : Z) : str :=
  concat (repeat s (Z.to_nat n)).

(** [s[i]]: a negative index counts from the end; out of range raises. *)
Definition str_index (s : str) (i : Z) : M char :=
  let j := if i <? 0 then i + len s else i in
  if (0 <=? j) && (j <? len s) then
    match nth_error s (Z.to_nat j) with
    | Some c => ret c
    | None => raise IndexError
    end
  else raise IndexError.

(** ** The collaborators: [time], [smbus] and [rpi_gpio] *)

(** The bounds of CPython's [_PyTime_t], a signed 64-bit count of
    nanoseconds. *)
Definition PyTime_MIN : Z := - 2 ^ 63.
Definition PyTime_MAX : Z := 2 ^ 63 - 1.

(** A length in seconds as a whole number of nanoseconds, rounded away from
    zero, as [time.sleep] converts its argument. *)
Definition sleep_nanoseconds (secs : Q) : Z :=
  let scaled := Qnum secs * 10 ^ 9 in
  let den := Zpos (Qden secs) in
  if 0 <=? scaled then - ((- scaled) / den) else scaled / den.

(** [time.sleep(secs)]: the length is converted to nanoseconds first, and a
    count that does not fit [_PyTime_t] raises [OverflowError]; then a
    negative length raises [ValueError]. *)
Definition time_sleep (secs : Q) : M unit :=
  let timeout := sleep_nanoseconds secs in
  if (timeout <? PyTime_MIN) || (PyTime_MAX <? timeout) then raise OverflowError
  else if timeout <? 0 then raise ValueError
  else emit (Sleep secs).

(** [bus.write_byte(addr, data)]: one byte written to the device at [addr].
    The transport is taken to deliver every write. *)
Definition bus_write_byte (addr data : Z) : M unit :=
  emit (BusWrite addr data).

(** [GPIO.input(pin)]: the level of the pin now. *)
Definition GPIO_input (pin : Z) : M Level :=
  fun w => mkOutcome (Ok (pin_level w pin)) w [GpioInput pin (pin_level w pin)].

(** [GPIO.output(pin, v)]: the pin is driven to [v]. *)
Definition GPIO_output (pin : Z) (v : Level) : M unit :=
  fun w =>
    mkOutcome (Ok tt)
      (mkWorld (LCD_BACKLIGHT w)
               (fun p => if p =? pin then v else pin_level w p))
      [GpioOutput pin v].

(** ** The script: constants *)

Definition I2C_ADDR : Z := 0x27.

Definition LCD_WIDTH : Z := 16.
Definition LCD_CHR : Z := 1.
Definition LCD_CMD : Z := 0.
Definition LCD_LINE_1 : Z := 0x80.
Definition LCD_LINE_2 : Z := 0xC0.
Definition ENABLE : Z := 4. (* 0b00000100 *)

Definition E_PULSE : Q := 0.0005.
Definition E_DELAY : Q := 0.0005.

(** ** The script: procedures *)

Definition lcd_toggle_enable (bits : Z) : M unit :=
  time_sleep E_DELAY ;;
  bus_write_byte I2C_ADDR (Z.lor bits ENABLE) ;;
  time_sleep E_PULSE ;;
  bus_write_byte I2C_ADDR (Z.land bits (Z.lnot ENABLE)) ;;
  time_sleep E_DELAY.

Definition lcd_byte (bits mode : Z) : M unit :=
  fun w =>
    let bits_high := Z.lor (Z.lor mode (Z.land bits 0xF0)) (LCD_BACKLIGHT w) in
    let bits_low :=
      Z.lor (Z.lor mode (Z.land (Z.shiftl bits 4) 0xF0)) (LCD_BACKLIGHT w) in
    (bus_write_byte I2C_ADDR bits_high ;;
     lcd_toggle_enable bits_high ;;
     bus_write_byte I2C_ADDR bits_low ;;
     lcd_toggle_enable bits_low) w.

Definition lcd_init : M unit :=
  lcd_byte 0x33 LCD_CMD ;; (* 0b00110011 *)
  lcd_byte 0x32 LCD_CMD ;; (* 0b00110010 *)
  lcd_byte 0x06 LCD_CMD ;; (* 0b00000110 *)
  lcd_byte 0x0C LCD_CMD ;; (* 0b00001100 *)
  lcd_byte 0x28 LCD_CMD ;; (* 0b00101000 *)
  lcd_byte 0x01 LCD_CMD ;; (* 0b00000001 *)
  time_sleep E_DELAY.

Definition lcd_string (message : str) (line : Z) : M unit :=
  let message := ljust message LCD_WIDTH space in
  lcd_byte line LCD_CMD ;;
  for_each (range LCD_WIDTH) (fun i =>
    c <- str_index message i ;;
    lcd_byte (ord c) LCD_CHR).

Definition marquee_smooth (message : str) (line : Z) (delay : Q) (cycles : Z)
  : M unit :=
  let message :=
    if len message <? LCD_WIDTH then ljust message LCD_WIDTH space
    else message in
  let scroll_text := message ++ str_mul [space] LCD_WIDTH in
  let length := len message + LCD_WIDTH in
  for_each (range cycles) (fun cycle =>
    for_each (range length) (fun pos =>
      window <- for_fold (range LCD_WIDTH) [] (fun window i =>
                  k <- py_mod (pos + i) (len scroll_text) ;;
                  c <- str_index scroll_text k ;;
                  ret (window ++ [c])) ;;
      lcd_string window line ;;
      time_sleep delay)).

Definition buttonPressed (pin : Z) : M unit :=
  v <- GPIO_input 20 ;;
  if Level_eqb v LOW then GPIO_output 16 HIGH
  else GPIO_output 16 LOW.

(** [marquee_smooth(message, line)], with the defaults of the signature. *)
Definition marquee_smooth_default (message : str) (line : Z) : M unit :=
  marquee_smooth message line 0.3 3.

(** ** Reading a trace *)

(** The data bytes of the bus writes of a trace, in order. *)
Fixpoint bus_writes (evs : list Event) : list Z :=
  match evs with
  | [] => []
  | BusWrite _ data :: rest => data :: bus_writes rest
  | _ :: rest => bus_writes rest
  end.

(** The events of one latched nibble: the byte [x] on the bus, then the pulse
    of the enable line around it. *)
Definition latched (x : Z) : list Event :=
  [ BusWrite I2C_ADDR x;
    Sleep E_DELAY;
    BusWrite I2C_ADDR (Z.lor x ENABLE);
    Sleep E_PULSE;
    BusWrite I2C_ADDR (Z.land x (Z.lnot ENABLE));
    Sleep E_DELAY ].

(** The bytes of the two nibbles of [bits], as the bus carries them: bits 4-7
    kept in place, and bits 0-3 moved up to bits 4-7. *)
Definition upper_nibble_byte (bl bits mode : Z) : Z :=
  Z.lor (Z.lor mode (16 * ((bits / 16) mod 16))) bl.

Definition lower_nibble_byte (bl bits mode : Z) : Z :=
  Z.lor (Z.lor mode (16 * (bits mod 16))) bl.

(** The events of one two-nibble transfer of the byte [fst t] in mode
    [snd t], under the backlight bits [bl]. *)
Definition transfer (bl : Z) (t : Z * Z) : list Event :=
  latched (upper_nibble_byte bl (fst t) (snd t)) ++
  latched (lower_nibble_byte bl (fst t) (snd t)).

(** The six commands of the reset procedure, in order. *)
Definition init_commands : list (Z * Z) :=
  [ (0x33, LCD_CMD); (0x32, LCD_CMD); (0x06, LCD_CMD);
    (0x0C, LCD_CMD); (0x28, LCD_CMD); (0x01, LCD_CMD) ].

(** ** The marquee, frame by frame *)

(** The message the marquee scrolls: the argument, padded when it is short. *)
Definition padded (message : str) : str :=
  if len message <? LCD_WIDTH then ljust message LCD_WIDTH space else message.

(** The backing buffer of the marquee. *)
Definition scroll_buffer (message : str) : str :=
  padded message ++ str_mul [space] LCD_WIDTH.

(** The [LCD_WIDTH] characters of [scroll_text] read from [pos] on, with
    wraparound. *)
Definition window_at (scroll_text : str) (pos : Z) : str :=
  map (fun i => nth (Z.to_nat ((pos + i) mod len scroll_text)) scroll_text space)
      (range LCD_WIDTH).

(** The windows of one call, in the order they are shown. *)
Definition frames (message : str) (cycles : Z) : list str :=
  flat_map
    (fun _ : Z =>
       map (window_at (scroll_buffer message))
           (range (len (padded message) + LCD_WIDTH)))
    (range cycles).

(** One frame of the marquee: the window on the display, then the pause. *)
Definition show_frame (line : Z) (delay : Q) (window : str) : M unit :=
  lcd_string window line ;;
  time_sleep delay.

(** ** A world to run examples in *)

(** Backlight off, as the script starts; every pin idle at its pull-up. *)
Definition idle_world : World := mkWorld 0 (fun _ => HIGH).

(** The same with the button of pin 20 held down. *)
Definition pressed_world : World :=
  mkWorld 0 (fun p => if p =? 20 then LOW else HIGH).

(** ** The main program *)

(** The module-level assignment [LCD_BACKLIGHT = v]. *)
Definition set_LCD_BACKLIGHT (v : Z) : M unit :=
  fun w => mkOutcome (Ok tt) (mkWorld v (pin_level w)) [].

(** The display part of the main program, from [lcd_init()] to the last
    [lcd_byte(0x01, LCD_CMD)]. *)
Definition main_lcd : M unit :=
  lcd_init ;;
  set_LCD_BACKLIGHT 0x08 ;;
  marquee_smooth_default (lit "Hello, worl'''d!") LCD_LINE_1 ;;
  lcd_string (lit "Python on QNX 8!") LCD_LINE_2 ;;
  time_sleep 5 ;;
  set_LCD_BACKLIGHT 0x00 ;;
  lcd_byte 0x01 LCD_CMD.

(** ** More readings of a trace *)


(** An event of the display driver: a write to the expander at [I2C_ADDR],
    or a pause.  GPIO traffic is not. *)
Definition lcd_traffic (e : Event) : bool :=
  match e with
  | BusWrite addr _ => addr =? I2C_ADDR
  | Sleep _ => true
  | GpioInput _ _ | GpioOutput _ _ => false
  end.

(** A bus byte that fits eight bits and carries the backlight bits [bl] in
    bit 3. *)
Definition carries_backlight (bl x : Z) : Prop :=
  0 <= x < 256 /\ Z.testbit x 3 = (bl =? 0x08).

(** * Properties *)

(** ** The monad: how computations compose *)

Lemma bind_ok {A B} (m : M A) (k : A -> M B) w a w' evs :
  m w = mkOutcome (Ok a) w' evs ->
  bind m k w = after evs (k a w').
Proof. intros H. unfold bind. rewrite H. reflexivity. Qed.


(** A loop whose body leaves the world as it found it. *)
Lemma for_each_run {A} (l : list A) (body : A -> M unit)
      (ev : A -> list Event) w :
  (forall x, In x l -> body x w = mkOutcome (Ok tt) w (ev x)) ->
  for_each l body w = mkOutcome (Ok tt) w (flat_map ev l).
Proof.
  induction l as [|x rest IH]; intros Hbody; simpl.
  - reflexivity.
  - rewrite (bind_ok _ _ w tt w (ev x)) by (apply Hbody; now left).
    rewrite IH by (intros y Hy; apply Hbody; now right).
    reflexivity.
Qed.

(** A loop that only computes: no event, no change of the world. *)
Lemma for_fold_run {A S} (l : list A) (body : S -> A -> M S)
      (step : S -> A -> S) w :
  (forall s x, In x l -> body s x w = mkOutcome (Ok (step s x)) w []) ->
  forall acc,
    for_fold l acc body w = mkOutcome (Ok (fold_left step l acc)) w [].
Proof.
  induction l as [|x rest IH]; intros Hbody acc; simpl.
  - reflexivity.
  - rewrite (bind_ok _ _ w (step acc x) w []) by (apply Hbody; now left).
    rewrite IH by (intros s y Hy; apply Hbody; now right).
    reflexivity.
Qed.

Lemma after_nil {A} (o : Outcome A) : after [] o = o.
Proof. destruct o. reflexivity. Qed.

Lemma bind_ext {A B} (m m' : M A) (k k' : A -> M B) w :
  (forall u, m u = m' u) ->
  (forall a u, k a u = k' a u) ->
  bind m k w = bind m' k' w.
Proof.
  intros Hm Hk. unfold bind. rewrite Hm.
  destruct (m' w) as [[a|e] u evs]; cbn [result final events];
    [rewrite Hk|]; reflexivity.
Qed.

Lemma bind_assoc {A B C} (m : M A) (k : A -> M B) (h : B -> M C) w :
  bind (bind m k) h w = bind m (fun a => bind (k a) h) w.
Proof.
  unfold bind.
  destruct (m w) as [[a|e] u evs]; cbn [result final events after];
    [|reflexivity].
  destruct (k a u) as [[b|e] v evs']; cbn [result final events after];
    [|reflexivity].
  unfold after. cbn [result final events]. rewrite app_assoc. reflexivity.
Qed.

(** Loops whose bodies agree do the same. *)
Lemma for_each_ext {A} (l : list A) (body body' : A -> M unit) :
  (forall x u, body x u = body' x u) ->
  forall w, for_each l body w = for_each l body' w.
Proof.
  intros Hbody. induction l as [|x rest IH]; intros w; simpl;
    [reflexivity|].
  apply bind_ext; [intros u; apply Hbody | intros _ u; apply IH].
Qed.

(** A loop over two lists in a row is the two loops in a row, also when a
    body raises. *)
Lemma for_each_app {A} (l1 l2 : list A) (body : A -> M unit) :
  forall w,
    for_each (l1 ++ l2) body w = (for_each l1 body ;; for_each l2 body) w.
Proof.
  induction l1 as [|x rest IH]; intros w; simpl.
  - unfold bind, ret. cbn [result final events]. symmetry. apply after_nil.
  - rewrite bind_assoc.
    apply bind_ext; [reflexivity | intros _ u; apply IH].
Qed.

Lemma for_each_map {A B} (g : A -> B) (l : list A) (body : B -> M unit) :
  forall w, for_each (map g l) body w = for_each l (fun x => body (g x)) w.
Proof.
  induction l as [|x rest IH]; intros w; simpl; [reflexivity|].
  apply bind_ext; [reflexivity | intros _ u; apply IH].
Qed.

(** Nested loops are one loop over the flattened list. *)
Lemma for_each_flat_map {A B} (g : A -> list B) (l : list A)
      (body : B -> M unit) :
  forall w,
    for_each (flat_map g l) body w =
    for_each l (fun x => for_each (g x) body) w.
Proof.
  induction l as [|x rest IH]; intros w; simpl; [reflexivity|].
  rewrite for_each_app.
  apply bind_ext; [reflexivity | intros _ u; apply IH].
Qed.

(** What every round of a loop keeps, the loop keeps, whether it ends
    normally or in an exception. *)
Lemma for_each_keeps {A} (P : list Event -> Prop) (l : list A)
      (body : A -> M unit) w :
  P [] ->
  (forall evs evs', P evs -> P evs' -> P (evs ++ evs')) ->
  (forall x, final (body x w) = w /\ P (events (body x w))) ->
  final (for_each l body w) = w /\ P (events (for_each l body w)).
Proof.
  intros Hnil Happ Hbody. induction l as [|x rest IH]; simpl.
  - split; [reflexivity | exact Hnil].
  - unfold bind. destruct (Hbody x) as [Hw Hev].
    destruct (body x w) as [[[]|e] u evs];
      cbn [result final events after] in *; subst u.
    + destruct IH as [IHw IHev]. split; [exact IHw | apply Happ; assumption].
    + split; [reflexivity | exact Hev].
Qed.

Lemma bus_writes_app evs evs' :
  bus_writes (evs ++ evs') = bus_writes evs ++ bus_writes evs'.
Proof.
  induction evs as [|e rest IH]; simpl; [reflexivity|].
  destruct e; simpl; rewrite IH; reflexivity.
Qed.

(** ** Nibble arithmetic *)

Lemma testbit_0xF0 n : 0 <= n -> Z.testbit 0xF0 n = (4 <=? n) && (n <? 8).
Proof.
  intros Hn. change 0xF0 with (Z.shiftl (Z.ones 4) 4).
  rewrite Z.shiftl_spec by assumption.
  destruct (Z.leb_spec 4 n) as [H4|H4].
  - rewrite Z.testbit_ones_nonneg by lia. simpl.
    destruct (Z.ltb_spec (n - 4) 4), (Z.ltb_spec n 8); (reflexivity || lia).
  - apply Z.testbit_neg_r. lia.
Qed.

(** Bits 4-7 of [bits], left where they are. *)
Lemma land_0xF0 bits : Z.land bits 0xF0 = 16 * ((bits / 16) mod 16).
Proof.
  change 16 with (2 ^ 4).
  rewrite <- Z.shiftr_div_pow2, <- Z.land_ones, Z.mul_comm, <- Z.shiftl_mul_pow2
    by lia.
  apply Z.bits_inj'. intros n Hn.
  rewrite Z.land_spec, testbit_0xF0, Z.shiftl_spec by assumption.
  destruct (Z.leb_spec 4 n) as [H4|H4].
  - rewrite Z.land_spec, Z.shiftr_spec, Z.testbit_ones_nonneg by lia.
    replace (n - 4 + 4) with n by lia. simpl.
    destruct (Z.ltb_spec (n - 4) 4), (Z.ltb_spec n 8); (reflexivity || lia).
  - rewrite (Z.testbit_neg_r _ (n - 4)) by lia. simpl.
    apply Bool.andb_false_r.
Qed.

(** Bits 0-3 of [bits], moved to bits 4-7. *)
Lemma land_shiftl_0xF0 bits : Z.land (Z.shiftl bits 4) 0xF0 = 16 * (bits mod 16).
Proof.
  change 0xF0 with (Z.shiftl (Z.ones 4) 4).
  rewrite <- Z.shiftl_land, Z.land_ones, Z.shiftl_mul_pow2 by lia.
  change (2 ^ 4) with 16. lia.
Qed.

(** ** The nibble transfer *)

Lemma lcd_toggle_enable_run bits w :
  lcd_toggle_enable bits w =
  mkOutcome (Ok tt) w
    [ Sleep E_DELAY;
      BusWrite I2C_ADDR (Z.lor bits ENABLE);
      Sleep E_PULSE;
      BusWrite I2C_ADDR (Z.land bits (Z.lnot ENABLE));
      Sleep E_DELAY ].
Proof. reflexivity. Qed.

Lemma lcd_byte_run bits mode w :
  lcd_byte bits mode w =
  mkOutcome (Ok tt) w (transfer (LCD_BACKLIGHT w) (bits, mode)).
Proof.
  unfold transfer, upper_nibble_byte, lower_nibble_byte. simpl fst. simpl snd.
  rewrite <- land_0xF0, <- land_shiftl_0xF0.
  reflexivity.
Qed.

(** C6. The enable-latch pulse: for every byte [bits], [lcd_toggle_enable]
    waits the settle delay, writes [bits] with the enable bit (bit 2) set,
    waits the pulse width, writes [bits] with the enable bit cleared, and
    waits the settle delay again; it returns normally.  Both delays are
    0.5 ms, so neither is shorter than 0.5 ms. *)
Theorem lcd_toggle_enable_pulse bits w :
  lcd_toggle_enable bits w =
    mkOutcome (Ok tt) w
      [ Sleep E_DELAY;
        BusWrite I2C_ADDR (Z.setbit bits 2);
        Sleep E_PULSE;
        BusWrite I2C_ADDR (Z.clearbit bits 2);
        Sleep E_DELAY ]
  /\ (E_DELAY * 1000 == 1 # 2)%Q /\ (E_PULSE * 1000 == 1 # 2)%Q
  /\ (1 # 2 <= E_DELAY * 1000)%Q /\ (1 # 2 <= E_PULSE * 1000)%Q.
Proof.
  split.
  - rewrite lcd_toggle_enable_run.
    unfold Z.setbit, Z.clearbit. rewrite Z.ldiff_land. reflexivity.
  - repeat split; unfold E_DELAY, E_PULSE, Qle; simpl; lia.
Qed.

(** Bits 4-7 of a byte, read bit by bit. *)
Lemma upper_nibble_bits b i :
  0 <= b < 256 ->
  Z.testbit (16 * (b / 16)) i = (4 <=? i) && Z.testbit b i.
Proof.
  intros Hb. destruct (Z.leb_spec 4 i) as [Hi|Hi]; cbn [andb].
  - change 16 with (2 ^ 4).
    rewrite Z.mul_comm, <- Z.shiftl_mul_pow2, <- Z.shiftr_div_pow2 by lia.
    rewrite Z.shiftl_spec, Z.shiftr_spec by lia.
    f_equal. lia.
  - destruct (Z.neg_nonneg_cases i) as [Hneg|Hpos].
    + apply Z.testbit_neg_r. exact Hneg.
    + change 16 with (2 ^ 4).
      rewrite Z.mul_comm, <- Z.shiftl_mul_pow2 by lia.
      rewrite Z.shiftl_spec by exact Hpos.
      apply Z.testbit_neg_r. lia.
Qed.

(** Bits 0-3 of a byte, found in bits 4-7 of the lower-nibble byte. *)
Lemma lower_nibble_bits b i :
  Z.testbit (16 * (b mod 16)) i = (4 <=? i) && (i <? 8) && Z.testbit b (i - 4).
Proof.
  destruct (Z.leb_spec 4 i) as [Hi|Hi]; cbn [andb].
  - change 16 with (2 ^ 4).
    rewrite Z.mul_comm, <- Z.shiftl_mul_pow2 by lia.
    rewrite Z.shiftl_spec, Z.testbit_mod_pow2 by lia.
    f_equal.
    destruct (Z.ltb_spec (i - 4) 4), (Z.ltb_spec i 8); (reflexivity || lia).
  - destruct (Z.neg_nonneg_cases i) as [Hneg|Hpos].
    + apply Z.testbit_neg_r. exact Hneg.
    + change 16 with (2 ^ 4).
      rewrite Z.mul_comm, <- Z.shiftl_mul_pow2 by lia.
      rewrite Z.shiftl_spec by exact Hpos.
      apply Z.testbit_neg_r. lia.
Qed.

(** C4. For every 8-bit value [b] and mode [m], [lcd_byte b m] puts on the
    bus first the upper-nibble byte ([m], bits 4-7 of [b] and the backlight
    bits of the moment, merged) with its latch pulse, and then the
    lower-nibble byte ([m], bits 0-3 of [b] moved to bits 4-7, and the
    backlight bits) with its latch pulse, in that order. *)
Theorem lcd_byte_upper_then_lower b m w :
  0 <= b < 256 ->
  let bl := LCD_BACKLIGHT w in
  let upper := Z.lor (Z.lor m (16 * (b / 16))) bl in
  let lower := Z.lor (Z.lor m (16 * (b mod 16))) bl in
  lcd_byte b m w =
    mkOutcome (Ok tt) w
      (BusWrite I2C_ADDR upper :: events (lcd_toggle_enable upper w) ++
       BusWrite I2C_ADDR lower :: events (lcd_toggle_enable lower w))
  /\ (forall i, Z.testbit (16 * (b / 16)) i = (4 <=? i) && Z.testbit b i)
  /\ (forall i, Z.testbit (16 * (b mod 16)) i =
                (4 <=? i) && (i <? 8) && Z.testbit b (i - 4)).
Proof.
  intros Hb bl upper lower. split; [|split].
  - rewrite lcd_byte_run. unfold transfer, upper_nibble_byte, lower_nibble_byte.
    simpl fst. simpl snd.
    rewrite (Z.mod_small (b / 16) 16) by (split; [apply Z.div_pos|apply Z.div_lt_upper_bound]; lia).
    reflexivity.
  - intros i. apply upper_nibble_bits. exact Hb.
  - intros i. apply lower_nibble_bits.
Qed.

Lemma lcd_byte_upper_then_lower_witness :
  lcd_byte 0x41 LCD_CHR idle_world =
    mkOutcome (Ok tt) idle_world
      (BusWrite I2C_ADDR 0x41 :: events (lcd_toggle_enable 0x41 idle_world) ++
       BusWrite I2C_ADDR 0x11 :: events (lcd_toggle_enable 0x11 idle_world)).
Proof.
  apply (lcd_byte_upper_then_lower 0x41 LCD_CHR idle_world). lia.
Defined.

(** C5, as the code has it.  For every byte and mode, one [lcd_byte] causes
    exactly six bus writes: each of the two nibbles is written once and then
    latched, and each latch pulse is two further writes. *)
Theorem lcd_byte_six_bus_writes b m w :
  List.length (bus_writes (events (lcd_byte b m w))) = 6%nat
  /\ forall x, List.length (bus_writes (events (lcd_toggle_enable x w))) = 2%nat.
Proof.
  split.
  - rewrite lcd_byte_run. reflexivity.
  - intros x. rewrite lcd_toggle_enable_run. reflexivity.
Qed.

(** C5, as the claim has it, fails: sending the letter A takes six bus
    writes, not four. *)
Lemma lcd_byte_not_four_bus_writes :
  bus_writes (events (lcd_byte 0x41 LCD_CHR idle_world)) =
    [0x41; 0x45; 0x41; 0x11; 0x15; 0x11]
  /\ List.length (bus_writes (events (lcd_byte 0x41 LCD_CHR idle_world))) <> 4%nat.
Proof. split; [reflexivity | discriminate]. Qed.

(** C9. [lcd_byte] looks at the low eight bits of its argument only: for
    every integer [b], negative ones included, both masks give the same for
    [b] and for [b mod 256], and so does the whole transfer. *)
Theorem lcd_byte_low_eight_bits b m w :
  lcd_byte b m w = lcd_byte (b mod 256) m w
  /\ Z.land (b mod 256) 0xF0 = Z.land b 0xF0
  /\ Z.land (Z.shiftl (b mod 256) 4) 0xF0 = Z.land (Z.shiftl b 4) 0xF0.
Proof.
  assert (Hhi : ((b mod 256) / 16) mod 16 = (b / 16) mod 16)
    by (Z.div_mod_to_equations; lia).
  assert (Hlo : (b mod 256) mod 16 = b mod 16)
    by (Z.div_mod_to_equations; lia).
  split; [|split].
  - rewrite !lcd_byte_run.
    unfold transfer, upper_nibble_byte, lower_nibble_byte. simpl fst. simpl snd.
    rewrite Hhi, Hlo. reflexivity.
  - rewrite !land_0xF0, Hhi. reflexivity.
  - rewrite !land_shiftl_0xF0, Hlo. reflexivity.
Qed.

(** C1. Every call of [lcd_init] emits the six command bytes 0x33, 0x32,
    0x06, 0x0C, 0x28, 0x01 in this order and nothing else but the final
    settle delay; each is a command-mode [lcd_byte] transfer, that is the
    upper-nibble byte and then the lower-nibble byte, each latched. *)
Theorem lcd_init_command_sequence w :
  lcd_init w =
    mkOutcome (Ok tt) w
      (flat_map (fun t => events (lcd_byte (fst t) (snd t) w)) init_commands
       ++ [Sleep E_DELAY])
  /\ (forall t, In t init_commands ->
        snd t = LCD_CMD /\
        events (lcd_byte (fst t) (snd t) w) =
          latched (Z.lor (16 * (fst t / 16)) (LCD_BACKLIGHT w)) ++
          latched (Z.lor (16 * (fst t mod 16)) (LCD_BACKLIGHT w)))
  /\ map fst init_commands = [0x33; 0x32; 0x06; 0x0C; 0x28; 0x01].
Proof.
  split; [|split].
  - unfold lcd_init.
    repeat (erewrite bind_ok by apply lcd_byte_run).
    unfold init_commands. cbn [flat_map fst snd].
    rewrite !lcd_byte_run. cbn [events].
    rewrite !app_nil_r, <- !app_assoc. reflexivity.
  - intros t Ht. rewrite lcd_byte_run.
    simpl in Ht.
    repeat (destruct Ht as [<-|Ht]; [split; reflexivity|]).
    contradiction.
  - reflexivity.
Qed.

(** ** Ranges, indexing and padding *)

Lemma in_range i n : In i (range n) <-> 0 <= i < n.
Proof.
  unfold range. rewrite in_map_iff. split.
  - intros [k [<- Hk]]. apply in_seq in Hk. lia.
  - intros Hi. exists (Z.to_nat i). split; [lia|]. apply in_seq. lia.
Qed.

Lemma length_range n : List.length (range n) = Z.to_nat n.
Proof. unfold range. rewrite length_map, length_seq. reflexivity. Qed.

Lemma flat_map_map {A B C} (f : B -> list C) (g : A -> B) l :
  flat_map f (map g l) = flat_map (fun x => f (g x)) l.
Proof. induction l as [|x rest IH]; simpl; [|rewrite IH]; reflexivity. Qed.

Lemma flat_map_flat_map {A B C} (f : B -> list C) (g : A -> list B) l :
  flat_map f (flat_map g l) = flat_map (fun x => flat_map f (g x)) l.
Proof.
  induction l as [|x rest IH]; simpl; [reflexivity|].
  rewrite flat_map_app, IH. reflexivity.
Qed.

Lemma map_nth_seq {A} (d : A) (s : list A) :
  forall k, (k <= List.length s)%nat ->
            map (fun j => nth j s d) (seq 0 k) = firstn k s.
Proof.
  induction s as [|a s IH]; intros [|k] Hk; simpl in *; try reflexivity; try lia.
  rewrite <- seq_shift, map_map. f_equal. apply IH. lia.
Qed.

(** Reading the first [n] positions of a string that has them. *)
Lemma map_nth_range (s : str) n :
  n <= len s ->
  map (fun i => nth (Z.to_nat i) s space) (range n) = firstn (Z.to_nat n) s.
Proof.
  intros Hn. unfold range. rewrite map_map.
  rewrite (map_ext _ (fun j => nth j s space))
    by (intros j; now rewrite Nat2Z.id).
  apply map_nth_seq. unfold len in Hn. lia.
Qed.

(** An index inside the string reads the character there. *)
Lemma str_index_run (s : str) i w :
  0 <= i < len s ->
  str_index s i w = mkOutcome (Ok (nth (Z.to_nat i) s space)) w [].
Proof.
  intros Hi. unfold str_index.
  destruct (Z.ltb_spec i 0) as [Hneg|_]; [lia|].
  destruct (Z.leb_spec 0 i) as [_|Hneg]; [|lia].
  destruct (Z.ltb_spec i (len s)) as [_|Hbig]; [|lia].
  cbn [andb].
  assert (Hlt : (Z.to_nat i < List.length s)%nat) by (unfold len in Hi; lia).
  destruct (nth_error s (Z.to_nat i)) as [c|] eqn:Hc.
  - rewrite (nth_error_nth _ _ space Hc). reflexivity.
  - apply nth_error_None in Hc. lia.
Qed.

Lemma len_app (s t : str) : len (s ++ t) = len s + len t.
Proof. unfold len. rewrite length_app. lia. Qed.

Lemma len_ljust s width fill : len (ljust s width fill) = Z.max (len s) width.
Proof.
  unfold ljust. rewrite len_app. unfold len. rewrite repeat_length. lia.
Qed.

Lemma len_str_mul_char c n : 0 <= n -> len (str_mul [c] n) = n.
Proof.
  intros Hn. unfold str_mul, len.
  assert (H : forall k, List.length (concat (repeat [c] k)) = k)
    by (induction k; simpl; congruence).
  rewrite H. lia.
Qed.

(** What a padded line shows: the first sixteen characters of the content,
    then spaces up to sixteen. *)
Lemma firstn_ljust (content : str) :
  firstn 16 (ljust content LCD_WIDTH space) =
  firstn 16 content ++ repeat space (16 - List.length content).
Proof.
  unfold ljust, LCD_WIDTH, len. rewrite firstn_app.
  replace (Z.to_nat (16 - Z.of_nat (List.length content)))
    with (16 - List.length content)%nat by lia.
  rewrite (firstn_all2 (repeat space (16 - List.length content)))
    by (rewrite repeat_length; lia).
  reflexivity.
Qed.

(** ** Rendering a line *)

Lemma lcd_string_run message line w :
  lcd_string message line w =
  mkOutcome (Ok tt) w
    (flat_map (transfer (LCD_BACKLIGHT w))
       ((line, LCD_CMD) ::
        map (fun c => (ord c, LCD_CHR))
            (firstn 16 (ljust message LCD_WIDTH space)))).
Proof.
  unfold lcd_string.
  erewrite bind_ok by apply lcd_byte_run.
  set (text := ljust message LCD_WIDTH space).
  assert (Hlen : LCD_WIDTH <= len text)
    by (unfold text; rewrite len_ljust; lia).
  rewrite (for_each_run _ _
             (fun i => transfer (LCD_BACKLIGHT w)
                         (ord (nth (Z.to_nat i) text space), LCD_CHR))).
  - cbn [flat_map]. unfold after. cbn [result final events].
    rewrite flat_map_map.
    pose proof (map_nth_range text LCD_WIDTH Hlen) as Hread.
    change (Z.to_nat LCD_WIDTH) with 16%nat in Hread.
    rewrite <- Hread, flat_map_map. reflexivity.
  - intros i Hi. apply in_range in Hi.
    erewrite bind_ok by (apply str_index_run; lia).
    rewrite lcd_byte_run. reflexivity.
Qed.

(** C2. For every content string, [lcd_string] sends the line address as one
    command transfer and then exactly sixteen character-mode transfers, one
    per character of [shown], in order: the content followed by spaces when
    the content has at most sixteen characters, and the first sixteen
    characters of the content when it has more. *)
Theorem lcd_string_sixteen_characters content line w :
  let shown := firstn 16 content ++ repeat space (16 - List.length content) in
  lcd_string content line w =
    mkOutcome (Ok tt) w
      (events (lcd_byte line LCD_CMD w) ++
       flat_map (fun c => events (lcd_byte (ord c) LCD_CHR w)) shown)
  /\ Z.of_nat (List.length shown) = LCD_WIDTH
  /\ ((List.length content <= 16)%nat ->
      shown = content ++ repeat space (16 - List.length content))
  /\ ((16 < List.length content)%nat -> shown = firstn 16 content)
  /\ ord space = 32.
Proof.
  intros shown. repeat split.
  - rewrite lcd_string_run, firstn_ljust. fold shown.
    cbn [flat_map]. rewrite flat_map_map, lcd_byte_run. cbn [events].
    f_equal. f_equal. apply flat_map_ext. intros c.
    rewrite lcd_byte_run. reflexivity.
  - unfold shown, LCD_WIDTH.
    rewrite length_app, length_firstn, repeat_length. lia.
  - intros Hshort. unfold shown. rewrite firstn_all2 by exact Hshort.
    reflexivity.
  - intros Hlong. unfold shown.
    replace (16 - List.length content)%nat with 0%nat by lia.
    apply app_nil_r.
Qed.

(** ** The marquee *)

Lemma fold_left_snoc {A B} (g : A -> B) (l : list A) :
  forall acc, fold_left (fun s x => s ++ [g x]) l acc = acc ++ map g l.
Proof.
  induction l as [|x rest IH]; intros acc; simpl.
  - symmetry. apply app_nil_r.
  - rewrite IH, <- app_assoc. reflexivity.
Qed.

(** The inner loop of [marquee_smooth] builds the window at [pos]. *)
Lemma window_run (scroll_text : str) pos w :
  0 < len scroll_text ->
  for_fold (range LCD_WIDTH) []
    (fun window i =>
       k <- py_mod (pos + i) (len scroll_text) ;;
       c <- str_index scroll_text k ;;
       ret (window ++ [c])) w
  = mkOutcome (Ok (window_at scroll_text pos)) w [].
Proof.
  intros Hlen.
  rewrite (for_fold_run _ _
             (fun window i =>
                window ++
                [nth (Z.to_nat ((pos + i) mod len scroll_text)) scroll_text
                     space])).
  - rewrite fold_left_snoc. reflexivity.
  - intros window i _. unfold py_mod.
    destruct (Z.eqb_spec (len scroll_text) 0) as [Hz|_]; [lia|].
    erewrite bind_ok by reflexivity.
    erewrite bind_ok
      by (apply str_index_run, Z.mod_pos_bound; exact Hlen).
    reflexivity.
Qed.

(** ** Pauses *)

Lemma sleep_nanoseconds_nonneg secs :
  (0 <= secs)%Q -> 0 <= sleep_nanoseconds secs.
Proof.
  destruct secs as [n d]. unfold Qle, sleep_nanoseconds. cbn [Qnum Qden].
  change (10 ^ 9) with 1000000000. intros Hn.
  destruct (Z.leb_spec 0 (n * 1000000000)) as [_|Hneg]; [|lia].
  assert (- (n * 1000000000) / Zpos d <= 0)
    by (apply Z.div_le_upper_bound; lia).
  lia.
Qed.


(** A length [time.sleep] accepts: not negative, and not beyond
    [_PyTime_t]. *)
Lemma time_sleep_run secs w :
  (0 <= secs)%Q -> sleep_nanoseconds secs <= PyTime_MAX ->
  time_sleep secs w = mkOutcome (Ok tt) w [Sleep secs].
Proof.
  intros Hs Hmax. unfold time_sleep. cbv zeta.
  pose proof (sleep_nanoseconds_nonneg secs Hs) as Hns.
  destruct (Z.ltb_spec (sleep_nanoseconds secs) PyTime_MIN) as [Hlow|_];
    [unfold PyTime_MIN in Hlow; lia|].
  destruct (Z.ltb_spec PyTime_MAX (sleep_nanoseconds secs)) as [Hhigh|_];
    [lia|].
  destruct (Z.ltb_spec (sleep_nanoseconds secs) 0) as [Hneg|_]; [lia|].
  reflexivity.
Qed.

(** Accepted or not, [time.sleep] touches nothing but the clock. *)
Lemma time_sleep_any secs w :
  exists r tail,
    time_sleep secs w = mkOutcome r w tail
    /\ (tail = [Sleep secs] \/ tail = []).
Proof.
  unfold time_sleep. cbv zeta.
  destruct ((sleep_nanoseconds secs <? PyTime_MIN)
            || (PyTime_MAX <? sleep_nanoseconds secs));
    [|destruct (sleep_nanoseconds secs <? 0)];
    eexists; eexists; (split; [reflexivity|]); auto.
Qed.

(** The events of one frame. *)
Lemma frame_run line delay window w :
  (0 <= delay)%Q -> sleep_nanoseconds delay <= PyTime_MAX ->
  (lcd_string window line ;; time_sleep delay) w =
  mkOutcome (Ok tt) w (events (lcd_string window line w) ++ [Sleep delay]).
Proof.
  intros Hd Hmax.
  erewrite bind_ok by apply lcd_string_run.
  rewrite time_sleep_run by assumption.
  rewrite lcd_string_run. reflexivity.
Qed.

Lemma show_frame_run line delay window w :
  (0 <= delay)%Q -> sleep_nanoseconds delay <= PyTime_MAX ->
  show_frame line delay window w =
  mkOutcome (Ok tt) w (events (lcd_string window line w) ++ [Sleep delay]).
Proof. unfold show_frame. apply frame_run. Qed.

(** One frame, whether or not its pause is accepted. *)
Lemma frame_any line delay window w :
  exists r tail,
    (lcd_string window line ;; time_sleep delay) w =
    mkOutcome r w (events (lcd_string window line w) ++ tail)
    /\ (tail = [Sleep delay] \/ tail = []).
Proof.
  destruct (time_sleep_any delay w) as (r & tail & Hsleep & Htail).
  exists r, tail. split; [|exact Htail].
  erewrite bind_ok by apply lcd_string_run.
  rewrite Hsleep, lcd_string_run. reflexivity.
Qed.

Lemma len_padded message : len (padded message) = Z.max (len message) LCD_WIDTH.
Proof.
  unfold padded. destruct (Z.ltb_spec (len message) LCD_WIDTH).
  - apply len_ljust.
  - lia.
Qed.

Lemma len_scroll_buffer message :
  len (scroll_buffer message) = Z.max (len message) LCD_WIDTH + LCD_WIDTH.
Proof.
  unfold scroll_buffer.
  rewrite len_app, len_padded, len_str_mul_char by (unfold LCD_WIDTH; lia).
  reflexivity.
Qed.

(** [marquee_smooth], with its locals named. *)
Lemma marquee_smooth_unfold message line delay cycles :
  marquee_smooth message line delay cycles =
  for_each (range cycles) (fun cycle =>
    for_each (range (len (padded message) + LCD_WIDTH)) (fun pos =>
      window <- for_fold (range LCD_WIDTH) [] (fun window i =>
                  k <- py_mod (pos + i) (len (scroll_buffer message)) ;;
                  c <- str_index (scroll_buffer message) k ;;
                  ret (window ++ [c])) ;;
      show_frame line delay window)).
Proof.
  unfold marquee_smooth, show_frame, padded, scroll_buffer. reflexivity.
Qed.

(** [marquee_smooth] is [lcd_string] and the pause on each window of
    [frames] in turn, whatever the delay and the number of cycles. *)
Lemma marquee_smooth_frames message line delay cycles w :
  marquee_smooth message line delay cycles w =
  for_each (frames message cycles)
           (fun window => lcd_string window line ;; time_sleep delay) w.
Proof.
  rewrite marquee_smooth_unfold. unfold frames.
  rewrite for_each_flat_map.
  apply for_each_ext. intros cycle u.
  rewrite for_each_map.
  apply for_each_ext. intros pos v.
  rewrite (bind_ok _ _ v (window_at (scroll_buffer message) pos) v [])
    by (apply window_run; rewrite len_scroll_buffer; unfold LCD_WIDTH; lia).
  apply after_nil.
Qed.

(** With a delay [time.sleep] accepts, every frame is shown. *)
Lemma marquee_smooth_run message line delay cycles w :
  (0 <= delay)%Q -> sleep_nanoseconds delay <= PyTime_MAX ->
  marquee_smooth message line delay cycles w =
  mkOutcome (Ok tt) w
    (flat_map (fun window => events (show_frame line delay window w))
              (frames message cycles)).
Proof.
  intros Hd Hmax. rewrite marquee_smooth_frames.
  apply for_each_run. intros window _.
  rewrite show_frame_run by assumption.
  apply frame_run; assumption.
Qed.








Lemma flat_map_const {A B} (x : list B) (l : list A) :
  flat_map (fun _ => x) l = concat (repeat x (List.length l)).
Proof. induction l as [|a rest IH]; simpl; [|rewrite IH]; reflexivity. Qed.

(** The windows repeat with the period of the buffer. *)
Lemma window_at_period (scroll_text : str) pos :
  window_at scroll_text (pos + len scroll_text) = window_at scroll_text pos.
Proof.
  unfold window_at. apply map_ext. intros i.
  replace (pos + len scroll_text + i)
    with (pos + i + 1 * len scroll_text) by lia.
  rewrite Z_mod_plus_full. reflexivity.
Qed.

(** At position 0 the window is the start of the buffer. *)
Lemma window_at_0 (scroll_text : str) :
  LCD_WIDTH <= len scroll_text ->
  window_at scroll_text 0 = firstn 16 scroll_text.
Proof.
  intros Hlen. unfold window_at.
  pose proof (map_nth_range scroll_text LCD_WIDTH Hlen) as Hread.
  change (Z.to_nat LCD_WIDTH) with 16%nat in Hread.
  rewrite <- Hread. apply map_ext_in. intros i Hi. apply in_range in Hi.
  rewrite Z.add_0_l, Z.mod_small by lia. reflexivity.
Qed.

(** C7. For every message shorter than the display, the marquee pads it to
    the width; the buffer is then two widths long, the first frame is the
    padded message itself, and one full period later (position, and frame
    index, [2 * LCD_WIDTH]) the window is the padded message again. *)
Theorem marquee_wraparound message line delay cycles w :
  len message < LCD_WIDTH -> (0 <= delay)%Q ->
  let text := ljust message LCD_WIDTH space in
  let buffer := text ++ str_mul [space] LCD_WIDTH in
  marquee_smooth message line delay cycles w =
    for_each (frames message cycles)
             (fun window => lcd_string window line ;; time_sleep delay) w
  /\ len text = LCD_WIDTH
  /\ len buffer = 2 * LCD_WIDTH
  /\ window_at buffer 0 = text
  /\ window_at buffer (len buffer) = window_at buffer 0
  /\ (1 <= cycles -> nth_error (frames message cycles) 0 = Some text)
  /\ (2 <= cycles ->
      nth_error (frames message cycles) (Z.to_nat (len buffer)) = Some text).
Proof.
  intros Hshort Hd text buffer.
  assert (Htext : len text = LCD_WIDTH)
    by (unfold text; rewrite len_ljust; lia).
  assert (Hbuffer : len buffer = 2 * LCD_WIDTH)
    by (unfold buffer; rewrite len_app, Htext; reflexivity).
  assert (Hfirst : window_at buffer 0 = text).
  { rewrite window_at_0 by (rewrite Hbuffer; unfold LCD_WIDTH; lia).
    unfold buffer. rewrite firstn_app.
    replace (16 - List.length text)%nat with 0%nat
      by (unfold len, LCD_WIDTH in Htext; lia).
    rewrite firstn_all2 by (unfold len, LCD_WIDTH in Htext; lia).
    apply app_nil_r. }
  assert (Hpadded : padded message = text).
  { unfold padded. destruct (Z.ltb_spec (len message) LCD_WIDTH); [reflexivity|lia]. }
  assert (Hframes :
            frames message cycles =
            concat (repeat (map (window_at buffer) (range 32))
                           (Z.to_nat cycles))).
  { unfold frames, scroll_buffer. rewrite Hpadded, Htext. fold buffer.
    rewrite flat_map_const, length_range. reflexivity. }
  assert (Hhead : nth_error (map (window_at buffer) (range 32)) 0 = Some text)
    by (rewrite <- Hfirst; reflexivity).
  assert (Hcycle : List.length (map (window_at buffer) (range 32)) = 32%nat)
    by reflexivity.
  repeat split.
  - apply marquee_smooth_frames.
  - exact Htext.
  - exact Hbuffer.
  - exact Hfirst.
  - apply (window_at_period buffer 0).
  - intros Hone. rewrite Hframes.
    destruct (Z.to_nat cycles) as [|k] eqn:Hk; [lia|].
    cbn [repeat concat]. rewrite nth_error_app1 by (rewrite Hcycle; lia).
    exact Hhead.
  - intros Htwo. rewrite Hframes, Hbuffer.
    destruct (Z.to_nat cycles) as [|[|k]] eqn:Hk; [lia|lia|].
    cbn [repeat concat]. change (Z.to_nat (2 * LCD_WIDTH)) with 32%nat.
    rewrite nth_error_app2 by (rewrite Hcycle; lia).
    rewrite Hcycle, Nat.sub_diag.
    rewrite nth_error_app1 by (rewrite Hcycle; lia).
    exact Hhead.
Qed.

Lemma marquee_wraparound_witness :
  window_at (ljust (lit "AB") LCD_WIDTH space ++ str_mul [space] LCD_WIDTH) 0
    = ljust (lit "AB") LCD_WIDTH space
  /\ nth_error (frames (lit "AB") 3) 32 = Some (ljust (lit "AB") LCD_WIDTH space).
Proof.
  destruct (marquee_wraparound (lit "AB") LCD_LINE_1 0.3 3 idle_world)
    as (_ & _ & _ & Hfirst & _ & _ & Hperiod).
  - reflexivity.
  - unfold Qle; simpl; lia.
  - split; [exact Hfirst | apply Hperiod; lia].
Defined.

(** ** The button and the LED *)

Lemma buttonPressed_events pin w :
  events (buttonPressed pin w) =
  [ GpioInput 20 (pin_level w 20);
    GpioOutput 16 (match pin_level w 20 with LOW => HIGH | HIGH => LOW end) ].
Proof.
  unfold buttonPressed, bind, GPIO_input. cbn [result events final].
  destruct (pin_level w 20); reflexivity.
Qed.

Lemma buttonPressed_final pin w :
  final (buttonPressed pin w) =
  mkWorld (LCD_BACKLIGHT w)
          (fun p => if p =? 16
                    then match pin_level w 20 with LOW => HIGH | HIGH => LOW end
                    else pin_level w p).
Proof.
  unfold buttonPressed, bind, GPIO_input. cbn [result events final].
  destruct (pin_level w 20) eqn:Hlevel; cbn; rewrite ?Hlevel; reflexivity.
Qed.

(** C8. On every call of [buttonPressed], whatever happened before, pin 20
    is sampled once and pin 16 is driven once: to HIGH when the sample is LOW
    and to LOW when the sample is HIGH.  Two calls that sample the same level
    do the same. *)
Theorem buttonPressed_reflects pin w :
  let sampled := pin_level w 20 in
  let driven := match sampled with LOW => HIGH | HIGH => LOW end in
  events (buttonPressed pin w) = [GpioInput 20 sampled; GpioOutput 16 driven]
  /\ result (buttonPressed pin w) = Ok tt
  /\ pin_level (final (buttonPressed pin w)) 16 = driven
  /\ forall pin' w',
       pin_level w' 20 = sampled ->
       events (buttonPressed pin' w') = events (buttonPressed pin w).
Proof.
  intros sampled driven.
  repeat split.
  - apply buttonPressed_events.
  - unfold buttonPressed, bind, GPIO_input. cbn [result events final].
    destruct (pin_level w 20); reflexivity.
  - rewrite buttonPressed_final. reflexivity.
  - intros pin' w' Hsame. rewrite !buttonPressed_events, Hsame. reflexivity.
Qed.

(** C10. [buttonPressed] does not look at its argument: for every two pin
    numbers the call is the same computation, which reads pin 20, drives
    pin 16 and leaves every other pin as it was. *)
Theorem buttonPressed_ignores_pin p1 p2 w :
  buttonPressed p1 w = buttonPressed p2 w
  /\ (exists v v',
        events (buttonPressed p1 w) = [GpioInput 20 v; GpioOutput 16 v'])
  /\ forall p, p <> 16 ->
       pin_level (final (buttonPressed p1 w)) p = pin_level w p.
Proof.
  split; [reflexivity|]. split.
  - exists (pin_level w 20).
    exists (match pin_level w 20 with LOW => HIGH | HIGH => LOW end).
    apply (buttonPressed_events p1 w).
  - intros p Hp. rewrite buttonPressed_final. cbn [pin_level].
    destruct (Z.eqb_spec p 16) as [Heq|_]; [contradiction|reflexivity].
Qed.

(** ** Concrete runs *)

(** The bus bytes of [lcd_init] as the script calls it, backlight off. *)
Example lcd_init_bus_bytes :
  bus_writes (events (lcd_init idle_world)) =
  [ 0x30; 0x34; 0x30; 0x30; 0x34; 0x30;   (* 0x33 *)
    0x30; 0x34; 0x30; 0x20; 0x24; 0x20;   (* 0x32 *)
    0x00; 0x04; 0x00; 0x60; 0x64; 0x60;   (* 0x06 *)
    0x00; 0x04; 0x00; 0xC0; 0xC4; 0xC0;   (* 0x0C *)
    0x20; 0x24; 0x20; 0x80; 0x84; 0x80;   (* 0x28 *)
    0x00; 0x04; 0x00; 0x10; 0x14; 0x10 ]. (* 0x01 *)
Proof. vm_compute. reflexivity. Qed.

(** [lcd_string("Hi", LCD_LINE_1)]: the address 0x80, then H, i and fourteen
    spaces. *)
Example lcd_string_Hi :
  lcd_string (lit "Hi") LCD_LINE_1 idle_world =
  mkOutcome (Ok tt) idle_world
    (flat_map (transfer 0)
       ((0x80, LCD_CMD) :: (72, LCD_CHR) :: (105, LCD_CHR) ::
        repeat (32, LCD_CHR) 14)).
Proof. vm_compute. reflexivity. Qed.

(** With the backlight on, bit 3 rides on every byte of a transfer. *)
Example lcd_byte_backlight_on :
  bus_writes (events (lcd_byte 0x41 LCD_CHR (mkWorld 0x08 (fun _ => HIGH)))) =
  [0x49; 0x4D; 0x49; 0x19; 0x1D; 0x19].
Proof. vm_compute. reflexivity. Qed.

(** [marquee_smooth("AB", LCD_LINE_2, cycles=1)] shows 32 frames; the first
    is the padded message and the third has it moved two places left. *)
Example marquee_AB_frames :
  List.length (frames (lit "AB") 1) = 32%nat
  /\ nth_error (frames (lit "AB") 1) 0 = Some (lit "AB              ")
  /\ nth_error (frames (lit "AB") 1) 2 = Some (lit "                ")
  /\ nth_error (frames (lit "AB") 1) 31 = Some (lit " AB             ").
Proof. vm_compute. repeat split; reflexivity. Qed.

(** Outside the contract: a negative number of cycles shows nothing, and a
    negative delay stops the marquee at the first pause, after one frame. *)
Example marquee_negative_cycles :
  marquee_smooth (lit "AB") LCD_LINE_1 0.3 (-1) idle_world =
  mkOutcome (Ok tt) idle_world [].
Proof. vm_compute. reflexivity. Qed.

Example marquee_negative_delay :
  result (marquee_smooth (lit "AB") LCD_LINE_1 (-1 # 10) 3 idle_world) =
    Raise ValueError
  /\ List.length
       (bus_writes
          (events (marquee_smooth (lit "AB") LCD_LINE_1 (-1 # 10) 3 idle_world)))
     = 102%nat.
Proof. vm_compute. split; reflexivity. Qed.

(** [time.sleep] at its edges: zero and the largest count of nanoseconds are
    accepted; one nanosecond more, or ten thousand million seconds of either
    sign, overflow; a small negative length is a [ValueError]. *)
Example time_sleep_edges :
  result (time_sleep 0 idle_world) = Ok tt
  /\ result (time_sleep 9223372036.854775807 idle_world) = Ok tt
  /\ result (time_sleep 9223372036.854775808 idle_world) = Raise OverflowError
  /\ result (time_sleep 10000000000 idle_world) = Raise OverflowError
  /\ result (time_sleep (-10000000000) idle_world) = Raise OverflowError
  /\ result (time_sleep (-1 # 10) idle_world) = Raise ValueError
  /\ result (time_sleep (-1 # 1000000000000) idle_world) = Raise ValueError.
Proof. vm_compute. repeat split; reflexivity. Qed.

(** The button held down lights the LED; released, it puts it out. *)
Example buttonPressed_pressed :
  events (buttonPressed 20 pressed_world) =
  [GpioInput 20 LOW; GpioOutput 16 HIGH].
Proof. reflexivity. Qed.

Example buttonPressed_released :
  events (buttonPressed 20 idle_world) =
  [GpioInput 20 HIGH; GpioOutput 16 LOW].
Proof. reflexivity. Qed.

(** * Further properties of the driver *)

(** ** The bytes on the bus *)

(** Case analysis over the sixteen values of a nibble. *)
Ltac each_nibble H :=
  apply (proj2 (in_range _ 16)) in H;
  vm_compute in H;
  repeat (destruct H as [H|H]; [subst|]); [.. | destruct H].

(** One latched nibble, under a mode of the script and a backlight value of
    the script: what its three bus bytes look like. *)
Lemma latched_control_bits m bl n :
  (m = LCD_CMD \/ m = LCD_CHR) ->
  (bl = 0x00 \/ bl = 0x08) ->
  0 <= n < 16 ->
  let sent := bus_writes (latched (Z.lor (Z.lor m (16 * n)) bl)) in
  Forall (fun x => carries_backlight bl x
                   /\ Z.testbit x 0 = (m =? LCD_CHR)
                   /\ Z.testbit x 1 = false
                   /\ Z.shiftr x 4 = n) sent
  /\ map (fun x => Z.testbit x 2) sent = [false; true; false].
Proof.
  intros [Hm|Hm] [Hbl|Hbl] Hn; subst m bl; each_nibble Hn;
    (split; [repeat constructor; vm_compute; congruence | reflexivity]).
Qed.

Lemma nibble_bounds bits :
  0 <= (bits / 16) mod 16 < 16 /\ 0 <= bits mod 16 < 16.
Proof. split; apply Z.mod_pos_bound; lia. Qed.

(** X1. Under the two modes and the two backlight values the script uses,
    the six bus bytes of one [lcd_byte] all fit eight bits, carry the mode in
    bit 0 and the backlight in bit 3, leave bit 1 clear, and raise the enable
    bit exactly on the second and the fifth; the data nibble in bits 4-7 is
    the upper nibble of the argument for the first three and the lower nibble
    for the last three.  This holds for every integer argument. *)
Theorem lcd_byte_control_bits bits mode w :
  (mode = LCD_CMD \/ mode = LCD_CHR) ->
  (LCD_BACKLIGHT w = 0x00 \/ LCD_BACKLIGHT w = 0x08) ->
  let sent := bus_writes (events (lcd_byte bits mode w)) in
  Forall (fun x => carries_backlight (LCD_BACKLIGHT w) x
                   /\ Z.testbit x 0 = (mode =? LCD_CHR)
                   /\ Z.testbit x 1 = false) sent
  /\ map (fun x => Z.testbit x 2) sent = [false; true; false; false; true; false]
  /\ map (fun x => Z.shiftr x 4) sent =
     [ (bits / 16) mod 16; (bits / 16) mod 16; (bits / 16) mod 16;
       bits mod 16; bits mod 16; bits mod 16 ].
Proof.
  intros Hmode Hbl sent. unfold sent. rewrite lcd_byte_run.
  unfold transfer, upper_nibble_byte, lower_nibble_byte. cbn [fst snd events].
  rewrite bus_writes_app.
  destruct (nibble_bounds bits) as [Hhi Hlo].
  destruct (latched_control_bits mode (LCD_BACKLIGHT w) _ Hmode Hbl Hhi)
    as [Hhi_all Hhi_en].
  destruct (latched_control_bits mode (LCD_BACKLIGHT w) _ Hmode Hbl Hlo)
    as [Hlo_all Hlo_en].
  split; [|split].
  - apply Forall_app. split;
      [eapply Forall_impl; [|exact Hhi_all] | eapply Forall_impl; [|exact Hlo_all]];
      cbv beta; intros x (Hc & H0 & H1 & _); auto.
  - rewrite map_app, Hhi_en, Hlo_en. reflexivity.
  - rewrite map_app.
    assert (Hnib : forall n (l : list Z),
               Forall (fun x => carries_backlight (LCD_BACKLIGHT w) x
                                /\ Z.testbit x 0 = (mode =? LCD_CHR)
                                /\ Z.testbit x 1 = false
                                /\ Z.shiftr x 4 = n) l ->
               map (fun x => Z.shiftr x 4) l = repeat n (List.length l)).
    { intros n l Hl. induction Hl as [|x l (_ & _ & _ & Hx) _ IH]; simpl;
        [reflexivity | rewrite Hx, IH; reflexivity]. }
    rewrite (Hnib _ _ Hhi_all), (Hnib _ _ Hlo_all). reflexivity.
Qed.

Lemma lcd_byte_control_bits_witness :
  map (fun x => Z.testbit x 2)
      (bus_writes (events (lcd_byte 0x41 LCD_CHR idle_world)))
  = [false; true; false; false; true; false]
  /\ map (fun x => Z.shiftr x 4)
         (bus_writes (events (lcd_byte 0x41 LCD_CHR idle_world)))
     = [ (0x41 / 16) mod 16; (0x41 / 16) mod 16; (0x41 / 16) mod 16;
         0x41 mod 16; 0x41 mod 16; 0x41 mod 16 ].
Proof.
  destruct (lcd_byte_control_bits 0x41 LCD_CHR idle_world)
    as (_ & Henable & Hdata).
  - right. reflexivity.
  - left. reflexivity.
  - split; [exact Henable | exact Hdata].
Defined.

(** Reading a nibble byte back: the mode from bit 0, the nibble from bits
    4-7. *)
Lemma nibble_byte_inj m m' bl n n' :
  (m = LCD_CMD \/ m = LCD_CHR) ->
  (m' = LCD_CMD \/ m' = LCD_CHR) ->
  (bl = 0x00 \/ bl = 0x08) ->
  0 <= n < 16 -> 0 <= n' < 16 ->
  Z.lor (Z.lor m (16 * n)) bl = Z.lor (Z.lor m' (16 * n')) bl ->
  m = m' /\ n = n'.
Proof.
  intros Hm Hm' Hbl Hn Hn' Heq.
  assert (Hread : forall k x, (k = LCD_CMD \/ k = LCD_CHR) -> 0 <= x < 16 ->
                    Z.shiftr (Z.lor (Z.lor k (16 * x)) bl) 4 = x
                    /\ Z.land (Z.lor (Z.lor k (16 * x)) bl) 1 = k).
  { intros k x [Hk|Hk] Hx; destruct Hbl as [Hbl|Hbl]; subst k bl;
      each_nibble Hx; split; reflexivity. }
  destruct (Hread m n Hm Hn) as [Hn1 Hm1].
  destruct (Hread m' n' Hm' Hn') as [Hn2 Hm2].
  rewrite Heq in Hn1, Hm1. split; congruence.
Qed.

(** X2. One transfer tells its byte and its mode: under the modes and
    backlight values of the script, two calls of [lcd_byte] that put the same
    events on the bus were given the same mode and the same low eight bits. *)
Theorem lcd_byte_determines_byte b b' m m' w :
  (m = LCD_CMD \/ m = LCD_CHR) ->
  (m' = LCD_CMD \/ m' = LCD_CHR) ->
  (LCD_BACKLIGHT w = 0x00 \/ LCD_BACKLIGHT w = 0x08) ->
  events (lcd_byte b m w) = events (lcd_byte b' m' w) ->
  m = m' /\ b mod 256 = b' mod 256.
Proof.
  intros Hm Hm' Hbl Hsame. rewrite !lcd_byte_run in Hsame.
  unfold transfer, latched, upper_nibble_byte, lower_nibble_byte in Hsame.
  cbn [fst snd events app] in Hsame.
  injection Hsame as Hupper _ _ Hlower _ _.
  destruct (nibble_bounds b) as [Hhi Hlo].
  destruct (nibble_bounds b') as [Hhi' Hlo'].
  destruct (nibble_byte_inj _ _ _ _ _ Hm Hm' Hbl Hhi Hhi' Hupper) as [Hmode Hh].
  destruct (nibble_byte_inj _ _ _ _ _ Hm Hm' Hbl Hlo Hlo' Hlower) as [_ Hl].
  split; [exact Hmode|].
  revert Hh Hl. clear. intros Hh Hl. Z.div_mod_to_equations. lia.
Qed.

Lemma lcd_byte_determines_byte_witness :
  LCD_CHR = LCD_CHR /\ 0x41 mod 256 = 0x141 mod 256.
Proof.
  apply (lcd_byte_determines_byte 0x41 0x141 LCD_CHR LCD_CHR idle_world).
  - right. reflexivity.
  - right. reflexivity.
  - left. reflexivity.
  - reflexivity.
Defined.

(** ** The backlight *)

(** X3. Setting [LCD_BACKLIGHT] between two transfers changes the second
    and not the first: the first goes out under the old value, the second
    under the new one, and the new value stays. *)
Theorem backlight_applies_from_next_transfer b m v b' m' w :
  (lcd_byte b m ;; set_LCD_BACKLIGHT v ;; lcd_byte b' m') w =
  mkOutcome (Ok tt) (mkWorld v (pin_level w))
    (transfer (LCD_BACKLIGHT w) (b, m) ++ transfer v (b', m')).
Proof.
  erewrite bind_ok by apply lcd_byte_run.
  erewrite bind_ok by reflexivity.
  rewrite lcd_byte_run. reflexivity.
Qed.

(** ** Rendering a line, again *)

(** X4. [lcd_string] reads at most the first sixteen characters of its
    argument, and padding the argument beforehand changes nothing: the
    content, its first sixteen characters and its padded form all render
    alike. *)
Theorem lcd_string_reads_sixteen content line w :
  lcd_string (firstn 16 content) line w = lcd_string content line w
  /\ lcd_string (ljust content LCD_WIDTH space) line w =
     lcd_string content line w
  /\ forall tail,
       (16 <= List.length content)%nat ->
       lcd_string (content ++ tail) line w = lcd_string content line w.
Proof.
  split; [|split].
  - rewrite !lcd_string_run, !firstn_ljust, firstn_firstn, length_firstn.
    replace (Nat.min 16 16) with 16%nat by reflexivity.
    replace (16 - Nat.min 16 (List.length content))%nat
      with (16 - List.length content)%nat by lia.
    reflexivity.
  - rewrite !lcd_string_run.
    rewrite (firstn_ljust (ljust content LCD_WIDTH space)).
    assert (Hlen : (16 <= List.length (ljust content LCD_WIDTH space))%nat).
    { pose proof (len_ljust content LCD_WIDTH space) as H.
      unfold len, LCD_WIDTH in *. lia. }
    replace (16 - List.length (ljust content LCD_WIDTH space))%nat
      with 0%nat by lia.
    cbn [repeat]. rewrite app_nil_r. reflexivity.
  - intros tail Hlong. rewrite !lcd_string_run, !firstn_ljust.
    rewrite length_app, firstn_app.
    replace (16 - List.length content)%nat with 0%nat by lia.
    replace (16 - (List.length content + List.length tail))%nat
      with 0%nat by lia.
    cbn [firstn repeat]. rewrite !app_nil_r. reflexivity.
Qed.

(** X5. Rendering a line leaves nothing behind: rendering it twice puts the
    same events on the bus twice, and what is rendered depends on the
    backlight value only, not on the pins. *)
Theorem lcd_string_repeatable message line w :
  (lcd_string message line ;; lcd_string message line) w =
    mkOutcome (Ok tt) w
      (events (lcd_string message line w) ++
       events (lcd_string message line w))
  /\ forall w',
       LCD_BACKLIGHT w' = LCD_BACKLIGHT w ->
       events (lcd_string message line w') = events (lcd_string message line w).
Proof.
  split.
  - erewrite bind_ok by apply lcd_string_run.
    rewrite lcd_string_run. reflexivity.
  - intros w' Hsame. rewrite !lcd_string_run, Hsame. reflexivity.
Qed.

(** ** What the driver touches *)

Lemma lcd_traffic_transfers bl (l : list (Z * Z)) :
  forallb lcd_traffic (flat_map (transfer bl) l) = true.
Proof.
  induction l as [|t rest IH]; simpl; [reflexivity|exact IH].
Qed.

Lemma forallb_flat_map {A B} (p : B -> bool) (f : A -> list B) (l : list A) :
  (forall x, forallb p (f x) = true) ->
  forallb p (flat_map f l) = true.
Proof.
  intros Hf. induction l as [|x rest IH]; simpl; [reflexivity|].
  rewrite forallb_app, Hf, IH. reflexivity.
Qed.

Lemma lcd_init_command_sequence_run w :
  lcd_init w =
    mkOutcome (Ok tt) w
      (flat_map (transfer (LCD_BACKLIGHT w)) init_commands ++ [Sleep E_DELAY])
  /\ forallb lcd_traffic
       (flat_map (transfer (LCD_BACKLIGHT w)) init_commands ++ [Sleep E_DELAY])
     = true.
Proof.
  split.
  - unfold lcd_init.
    repeat (erewrite bind_ok by apply lcd_byte_run).
    unfold init_commands. cbn [flat_map].
    rewrite !app_nil_r, <- !app_assoc. reflexivity.
  - rewrite forallb_app, lcd_traffic_transfers. reflexivity.
Qed.

(** X6. The display procedures talk to the expander at [I2C_ADDR] and to
    nobody else: every event of [lcd_init], of [lcd_string] and of
    [marquee_smooth] (with a delay that is not negative) is a write to this
    address or a pause, never a GPIO access; each returns normally and leaves
    the backlight value and the pins as they were. *)
Theorem lcd_procedures_only_use_the_bus message line delay cycles w :
  (0 <= delay)%Q ->
  (forallb lcd_traffic (events (lcd_init w)) = true
   /\ final (lcd_init w) = w)
  /\ (forallb lcd_traffic (events (lcd_string message line w)) = true
      /\ final (lcd_string message line w) = w)
  /\ (forallb lcd_traffic (events (marquee_smooth message line delay cycles w))
      = true
      /\ final (marquee_smooth message line delay cycles w) = w).
Proof.
  intros Hd. split; [|split].
  - destruct (lcd_init_command_sequence_run w) as [Hrun Hev].
    rewrite Hrun. split; [exact Hev | reflexivity].
  - rewrite lcd_string_run. cbn [events final].
    split; [apply lcd_traffic_transfers | reflexivity].
  - rewrite marquee_smooth_frames.
    destruct (for_each_keeps
                (fun evs => forallb lcd_traffic evs = true)
                (frames message cycles)
                (fun window => lcd_string window line ;; time_sleep delay) w)
      as [Hfinal Hevents].
    + reflexivity.
    + intros evs evs' H H'. rewrite forallb_app, H, H'. reflexivity.
    + intros window.
      destruct (frame_any line delay window w)
        as (r & tail & Hrun & Htail).
      rewrite Hrun. cbn [final events].
      split; [reflexivity|].
      rewrite forallb_app, lcd_string_run. cbn [events].
      rewrite lcd_traffic_transfers.
      destruct Htail as [-> | ->]; reflexivity.
    + split; [exact Hevents | exact Hfinal].
Qed.

Lemma lcd_procedures_only_use_the_bus_witness :
  forallb lcd_traffic
    (events (marquee_smooth (lit "AB") LCD_LINE_1 0.3 1 idle_world)) = true
  /\ final (marquee_smooth (lit "AB") LCD_LINE_1 0.3 1 idle_world) = idle_world.
Proof.
  apply (lcd_procedures_only_use_the_bus (lit "AB") LCD_LINE_1 0.3 1 idle_world).
  unfold Qle; simpl; lia.
Defined.

(** ** The button and the display *)

(** X7. The button callback and the display do not meet: [buttonPressed]
    writes nothing to the bus and keeps the backlight value, so a line
    rendered after it goes out exactly as it would have before it, and a
    line rendered before it does not change what the callback does. *)
Theorem buttonPressed_leaves_display_alone pin message line w :
  bus_writes (events (buttonPressed pin w)) = []
  /\ LCD_BACKLIGHT (final (buttonPressed pin w)) = LCD_BACKLIGHT w
  /\ events ((buttonPressed pin ;; lcd_string message line) w) =
     events (buttonPressed pin w) ++ events (lcd_string message line w)
  /\ events ((lcd_string message line ;; buttonPressed pin) w) =
     events (lcd_string message line w) ++ events (buttonPressed pin w).
Proof.
  assert (Hrun : buttonPressed pin w =
                 mkOutcome (Ok tt) (final (buttonPressed pin w))
                           (events (buttonPressed pin w))).
  { unfold buttonPressed, bind, GPIO_input. cbn [result events final].
    destruct (pin_level w 20); reflexivity. }
  split; [|split; [|split]].
  - rewrite buttonPressed_events. reflexivity.
  - rewrite buttonPressed_final. reflexivity.
  - erewrite bind_ok by exact Hrun.
    rewrite !lcd_string_run, buttonPressed_final. reflexivity.
  - erewrite bind_ok by apply lcd_string_run.
    rewrite lcd_string_run. reflexivity.
Qed.

(** X8. A second call of the callback while the button has not moved does
    what the first did and changes no pin: it samples the same level, since
    the first call drove pin 16 and the sample is of pin 20. *)
Theorem buttonPressed_twice p q w :
  let once := buttonPressed p w in
  let twice := buttonPressed q (final once) in
  events twice = events once
  /\ forall r, pin_level (final twice) r = pin_level (final once) r.
Proof.
  intros once twice. unfold twice, once.
  assert (Hsample : pin_level (final (buttonPressed p w)) 20 = pin_level w 20)
    by (rewrite buttonPressed_final; reflexivity).
  split.
  - rewrite !buttonPressed_events, Hsample. reflexivity.
  - intros r. rewrite (buttonPressed_final q), Hsample.
    rewrite buttonPressed_final. cbn [pin_level].
    destruct (r =? 16); reflexivity.
Qed.

(** ** The marquee at its edges *)

Lemma range_nonpositive n : n <= 0 -> range n = [].
Proof.
  intros Hn. unfold range. replace (Z.to_nat n) with 0%nat by lia. reflexivity.
Qed.


(** X9. With a number of cycles that is zero or negative, [marquee_smooth]
    does nothing at all and returns normally, whatever the message and
    whatever the delay, a negative one included. *)
Theorem marquee_smooth_no_cycles message line delay cycles w :
  cycles <= 0 ->
  marquee_smooth message line delay cycles w = mkOutcome (Ok tt) w [].
Proof.
  intros Hc. rewrite marquee_smooth_unfold, (range_nonpositive cycles Hc).
  reflexivity.
Qed.

Lemma marquee_smooth_no_cycles_witness :
  marquee_smooth (lit "AB") LCD_LINE_1 (-1 # 10) (-2) idle_world =
  mkOutcome (Ok tt) idle_world [].
Proof.
  apply (marquee_smooth_no_cycles (lit "AB") LCD_LINE_1 (-1 # 10) (-2) idle_world).
  lia.
Defined.





Lemma frames_repeat message cycles :
  frames message cycles =
  concat (repeat (map (window_at (scroll_buffer message))
                      (range (len (padded message) + LCD_WIDTH)))
                 (Z.to_nat cycles)).
Proof. unfold frames. rewrite flat_map_const, length_range. reflexivity. Qed.

Lemma frames_add message c1 c2 :
  0 <= c1 -> 0 <= c2 ->
  frames message (c1 + c2) = frames message c1 ++ frames message c2.
Proof.
  intros H1 H2. rewrite !frames_repeat, Z2Nat.inj_add by assumption.
  rewrite repeat_app, concat_app. reflexivity.
Qed.

(** X11. Cycles add up: for counts and a delay that are not negative,
    [marquee_smooth] over [c1 + c2] cycles is [marquee_smooth] over [c1]
    cycles followed by [marquee_smooth] over [c2] cycles; every cycle shows
    the same frames. *)
Theorem marquee_smooth_cycles_add message line delay c1 c2 w :
  0 <= c1 -> 0 <= c2 -> (0 <= delay)%Q ->
  marquee_smooth message line delay (c1 + c2) w =
  (marquee_smooth message line delay c1 ;;
   marquee_smooth message line delay c2) w.
Proof.
  intros H1 H2 Hd.
  rewrite marquee_smooth_frames, frames_add by assumption.
  rewrite for_each_app.
  apply bind_ext; intros; symmetry; apply marquee_smooth_frames.
Qed.

Lemma marquee_smooth_cycles_add_witness :
  marquee_smooth (lit "AB") LCD_LINE_1 0.3 (1 + 2) idle_world =
  (marquee_smooth (lit "AB") LCD_LINE_1 0.3 1 ;;
   marquee_smooth (lit "AB") LCD_LINE_1 0.3 2) idle_world.
Proof.
  apply (marquee_smooth_cycles_add (lit "AB") LCD_LINE_1 0.3 1 2 idle_world).
  - lia.
  - lia.
  - unfold Qle; simpl; lia.
Defined.

(** ** The windows of the marquee *)

(** X12. The inner loop of [marquee_smooth] builds, at every position, a
    window of exactly sixteen characters, and the window of the next position
    is the same window moved one place to the left with the next character of
    the buffer, wrapped around, coming in on the right. *)
Theorem marquee_window_scrolls_by_one (scroll_text : str) pos w :
  0 < len scroll_text ->
  for_fold (range LCD_WIDTH) []
    (fun window i =>
       k <- py_mod (pos + i) (len scroll_text) ;;
       c <- str_index scroll_text k ;;
       ret (window ++ [c])) w
  = mkOutcome (Ok (window_at scroll_text pos)) w []
  /\ len (window_at scroll_text pos) = LCD_WIDTH
  /\ window_at scroll_text (pos + 1) =
     tl (window_at scroll_text pos) ++
     [nth (Z.to_nat ((pos + LCD_WIDTH) mod len scroll_text)) scroll_text space].
Proof.
  intros Hlen. split; [|split].
  - apply window_run. exact Hlen.
  - unfold window_at, len. rewrite length_map, length_range. reflexivity.
  - unfold window_at.
    change (range LCD_WIDTH)
      with [0; 1; 2; 3; 4; 5; 6; 7; 8; 9; 10; 11; 12; 13; 14; 15].
    cbn [map tl app]. unfold LCD_WIDTH.
    repeat (f_equal; [do 3 f_equal; lia|]).
    do 4 f_equal. lia.
Qed.

Lemma marquee_window_scrolls_by_one_witness :
  window_at (scroll_buffer (lit "AB")) (5 + 1) =
  tl (window_at (scroll_buffer (lit "AB")) 5) ++
  [nth (Z.to_nat ((5 + LCD_WIDTH) mod len (scroll_buffer (lit "AB"))))
       (scroll_buffer (lit "AB")) space].
Proof.
  apply (marquee_window_scrolls_by_one (scroll_buffer (lit "AB")) 5 idle_world).
  reflexivity.
Defined.






(** ** How long the driver sleeps *)







(** ** Bytes, whatever is asked for *)

Lemma transfer_carries_backlight bl b m :
  (m = LCD_CMD \/ m = LCD_CHR) ->
  (bl = 0x00 \/ bl = 0x08) ->
  Forall (carries_backlight bl) (bus_writes (transfer bl (b, m))).
Proof.
  intros Hm Hbl. unfold transfer, upper_nibble_byte, lower_nibble_byte.
  cbn [fst snd]. rewrite bus_writes_app.
  destruct (nibble_bounds b) as [Hhi Hlo].
  apply Forall_app. split.
  - destruct (latched_control_bits m bl _ Hm Hbl Hhi) as [Hall _].
    eapply Forall_impl; [|exact Hall]. cbv beta. intros x (Hx & _). exact Hx.
  - destruct (latched_control_bits m bl _ Hm Hbl Hlo) as [Hall _].
    eapply Forall_impl; [|exact Hall]. cbv beta. intros x (Hx & _). exact Hx.
Qed.

Lemma bus_writes_flat_map_Forall {A} (P : Z -> Prop) (f : A -> list Event)
      (l : list A) :
  (forall x, In x l -> Forall P (bus_writes (f x))) ->
  Forall P (bus_writes (flat_map f l)).
Proof.
  intros Hf. induction l as [|x rest IH]; simpl; [constructor|].
  rewrite bus_writes_app. apply Forall_app. split.
  - apply Hf. now left.
  - apply IH. intros y Hy. apply Hf. now right.
Qed.

Lemma lcd_string_carries_backlight message line w :
  (LCD_BACKLIGHT w = 0x00 \/ LCD_BACKLIGHT w = 0x08) ->
  Forall (carries_backlight (LCD_BACKLIGHT w))
         (bus_writes (events (lcd_string message line w))).
Proof.
  intros Hbl. rewrite lcd_string_run. cbn [events].
  apply bus_writes_flat_map_Forall. intros [b m] Hin.
  apply transfer_carries_backlight; [|exact Hbl].
  destruct Hin as [Heq|Hin].
  - left. congruence.
  - right. apply in_map_iff in Hin. destruct Hin as (c & Heq & _). congruence.
Qed.

(** X15. Whatever line address and whatever characters are asked for, codes
    beyond 255 included, every value [lcd_string] and [marquee_smooth] write
    to the bus fits eight bits and has the backlight in bit 3, under either
    backlight value of the script. *)
Theorem driver_writes_bytes message line delay cycles w :
  (LCD_BACKLIGHT w = 0x00 \/ LCD_BACKLIGHT w = 0x08) ->
  (0 <= delay)%Q ->
  Forall (carries_backlight (LCD_BACKLIGHT w))
         (bus_writes (events (lcd_string message line w)))
  /\ Forall (carries_backlight (LCD_BACKLIGHT w))
            (bus_writes (events (marquee_smooth message line delay cycles w))).
Proof.
  intros Hbl Hd. split.
  - apply lcd_string_carries_backlight. exact Hbl.
  - rewrite marquee_smooth_frames.
    apply (for_each_keeps
             (fun evs =>
                Forall (carries_backlight (LCD_BACKLIGHT w)) (bus_writes evs))).
    + constructor.
    + intros evs evs' H H'. rewrite bus_writes_app. apply Forall_app.
      split; assumption.
    + intros window.
      destruct (frame_any line delay window w)
        as (r & tail & Hrun & Htail).
      rewrite Hrun. cbn [final events].
      split; [reflexivity|].
      rewrite bus_writes_app. apply Forall_app. split.
      * apply lcd_string_carries_backlight. exact Hbl.
      * destruct Htail as [-> | ->]; constructor.
Qed.

Lemma driver_writes_bytes_witness :
  Forall (carries_backlight 0)
         (bus_writes (events (lcd_string [960%N; 8364%N] 0x1C0 idle_world))).
Proof.
  apply (driver_writes_bytes [960%N; 8364%N] 0x1C0 0.3 1 idle_world).
  - left. reflexivity.
  - unfold Qle; simpl; lia.
Defined.

(** ** The main program *)

Lemma after_outcome {A} evs (r : Res A) w evs' :
  after evs (mkOutcome r w evs') = mkOutcome r w (evs ++ evs').
Proof. reflexivity. Qed.

Lemma events_outcome {A} (r : Res A) w evs :
  events (mkOutcome r w evs) = evs.
Proof. reflexivity. Qed.

(** X16. The display part of the main program, started with the backlight
    value 0x00 the module sets at import, runs to its end and leaves the
    backlight value at 0x00.  The initialisation and the final clear go out
    with the backlight bit clear; the marquee and the second line, sent
    between the two assignments, go out with it set: the assignment after
    [lcd_init()] does not reach back.  In all it makes 9936 bus writes. *)
Theorem main_lcd_backlight_phases pins :
  let w := mkWorld 0x00 pins in
  let lit_world := mkWorld 0x08 pins in
  let hello :=
    events (marquee_smooth_default (lit "Hello, worl'''d!") LCD_LINE_1
                                   lit_world) in
  let python := events (lcd_string (lit "Python on QNX 8!") LCD_LINE_2
                                   lit_world) in
  main_lcd w =
    mkOutcome (Ok tt) w
      (events (lcd_init w) ++ hello ++ python ++ [Sleep 5] ++
       events (lcd_byte 0x01 LCD_CMD w))
  /\ forallb (fun x => negb (Z.testbit x 3))
             (bus_writes (events (lcd_init w) ++
                          events (lcd_byte 0x01 LCD_CMD w))) = true
  /\ forallb (fun x => Z.testbit x 3) (bus_writes (hello ++ python)) = true
  /\ Z.of_nat (List.length (bus_writes (events (main_lcd w)))) = 9936.
Proof.
  intros w lit_world hello python.
  assert (Hdelay : (0 <= 0.3)%Q) by (unfold Qle; simpl; lia).
  destruct (lcd_init_command_sequence_run w) as [Hinit _].
  assert (Hmax : sleep_nanoseconds 0.3 <= PyTime_MAX)
    by (vm_compute; discriminate).
  assert (Hfive : (0 <= 5)%Q) by (unfold Qle; simpl; lia).
  assert (Hfive_max : sleep_nanoseconds 5 <= PyTime_MAX)
    by (vm_compute; discriminate).
  pose proof (marquee_smooth_run (lit "Hello, worl'''d!") LCD_LINE_1 0.3 3
                lit_world Hdelay Hmax) as Hhello.
  pose proof (lcd_string_run (lit "Python on QNX 8!") LCD_LINE_2 lit_world)
    as Hpython.
  assert (Hrun : main_lcd w =
                 mkOutcome (Ok tt) w
                   (events (lcd_init w) ++ hello ++ python ++ [Sleep 5] ++
                    events (lcd_byte 0x01 LCD_CMD w))).
  { unfold main_lcd, hello, python, marquee_smooth_default.
    rewrite (bind_ok _ _ w tt w _ Hinit). cbv beta.
    rewrite (bind_ok _ _ w tt lit_world [] eq_refl). cbv beta.
    erewrite bind_ok by exact Hhello.
    erewrite bind_ok by exact Hpython.
    rewrite (bind_ok _ _ lit_world tt lit_world [Sleep 5]
               (time_sleep_run 5 lit_world Hfive Hfive_max)). cbv beta.
    rewrite (bind_ok _ _ lit_world tt w [] eq_refl). cbv beta.
    rewrite Hinit, Hhello, Hpython, !lcd_byte_run.
    rewrite !after_outcome, !events_outcome, !app_nil_l. reflexivity. }
  split; [exact Hrun|]. split; [|split].
  - vm_compute. reflexivity.
  - unfold hello, python. vm_compute. reflexivity.
  - rewrite Hrun. unfold hello, python. vm_compute. reflexivity.
Qed.
